(** * verify_chat_performance.py: the verification runner

    A shallow embedding of [run(playwright)] from
    [src/verify_chat_performance.py].  The script drives a browser through
    the Playwright bindings: every binding call is an interaction with the
    outside world that either returns or raises.  The embedding keeps the
    script's control flow (sequencing, [try]/[except], the early [return])
    in a small monad, records every call and every printed line in a trace,
    and reads the observable effects (browser teardown, files written,
    registered routes) off that trace. *)

From Stdlib Require Import List String Ascii ZArith Bool Permutation.
Import ListNotations.
Open Scope string_scope.
Open Scope list_scope.

Set Warnings "-register-all".

(** ** JSON fixture payloads

    The Python literals passed as [json=...]; a [dict] keeps its insertion
    order, so an object is an association list. *)
Inductive json : Type :=
| JNull
| JBool (b : bool)
| JNum (n : Z)
| JStr (s : string)
| JArr (items : list json)
| JObj (fields : list (string * json)).

(** ** Requests, responses and route handlers *)
Record request : Type := mkRequest {
  req_url : string;
  req_method : string;
  req_headers : list (string * string);
  req_post_data : option string
}.

Record response : Type := mkResponse {
  resp_status : Z;
  resp_content_type : string;
  resp_body : json
}.

(** The object handed to a route handler; the handler may inspect the
    intercepted request through it. *)
Record route : Type := mkRoute { route_request : request }.

Definition handler : Type := route -> response.

(** [route.fulfill(status=None, json=...)] of the bindings: the answer has
    status 200 when no status is given (the spec's "HTTP 200 unless noted")
    and carries the [json] argument with the JSON content type. *)
Definition route_fulfill (status : option Z) (payload : json) : response :=
  {| resp_status := match status with Some s => s | None => 200%Z end;
     resp_content_type := "application/json";
     resp_body := payload |}.

(** ** Calls into the browser bindings, and the trace of a run

    What a binding call raises is an instance of [Exception] (the bindings'
    [Error] and [TimeoutError], an [OSError] from writing a file), the
    class both [except] clauses of the script catch. *)
Inductive exn : Type := Exception (msg : string).

Definition str (e : exn) : string := match e with Exception m => m end.

Inductive call : Type :=
| chromium_launch (headless : bool)
| new_context
| new_page
| page_route (pattern : string) (h : handler)
| page_goto (url : string) (timeout : Z)
| page_wait_for_selector (selector : string) (timeout : Z)
| page_fill (selector value : string)
| page_screenshot (path : string) (full_page : option bool)
| browser_close.

Inductive event : Type :=
| Printed (line : string)
| Called (c : call) (raised : option exn).

(** The outside world decides, for every call, whether it returns ([None])
    or raises.  The script has no loop and no two call sites that can both
    execute with the same arguments, so a function of the call covers every
    behaviour of the browser, the network and the file system along one
    run. *)
Definition world : Type := call -> option exn.

(** ** The script monad: trace output, exceptions and early [return] *)
Inductive completion (A : Type) : Type :=
| Normal (a : A)
| Return
| Raise (e : exn).
Arguments Normal {A} a.
Arguments Return {A}.
Arguments Raise {A} e.

Definition M (A : Type) : Type := world -> completion A * list event.

Definition ret {A} (a : A) : M A := fun _ => (Normal a, []).

Definition bind {A B} (m : M A) (k : A -> M B) : M B :=
  fun w =>
    match m w with
    | (Normal a, t1) => let (r, t2) := k a w in (r, t1 ++ t2)
    | (Return, t1) => (Return, t1)
    | (Raise e, t1) => (Raise e, t1)
    end.

Notation "x <- m ;; k" := (bind m (fun x => k))
  (at level 61, m at next level, right associativity).
Notation "m ;; k" := (bind m (fun _ => k))
  (at level 61, right associativity).

(** A binding call: recorded with its outcome, which the world decides. *)
Definition invoke (c : call) : M unit :=
  fun w =>
    match w c with
    | None => (Normal tt, [Called c None])
    | Some e => (Raise e, [Called c (Some e)])
    end.

Definition print (line : string) : M unit :=
  fun _ => (Normal tt, [Printed line]).

(** The [return] statement. *)
Definition return_ {A} : M A := fun _ => (Return, []).

(** [try: body except Exception as e: h e].  Only a raised exception enters
    the handler; whatever the handler does (including raising or returning)
    is the outcome of the statement. *)
Definition try_except {A} (body : M A) (h : exn -> M A) : M A :=
  fun w =>
    match body w with
    | (Raise e, t1) => let (r, t2) := h e w in (r, t1 ++ t2)
    | other => other
    end.

(** ** The script *)
Definition run_body : M unit :=
  invoke (chromium_launch true) ;;
  invoke new_context ;;
  invoke new_page ;;
  invoke (page_route "**/api/onboarding/status"
    (fun _ => route_fulfill None (JObj [("complete", JBool true)]))) ;;
  invoke (page_route "**/api/onboarding/options"
    (fun _ => route_fulfill None (JObj [("options", JArr [])]))) ;;
  invoke (page_route "**/api/status"
    (fun _ => route_fulfill None
      (JObj [("state", JStr "running"); ("agentName", JStr "Milady")]))) ;;
  invoke (page_route "**/api/auth/status"
    (fun _ => route_fulfill None
      (JObj [("required", JBool false); ("pairingEnabled", JBool false);
             ("expiresAt", JNull)]))) ;;
  invoke (page_route "**/api/workbench/overview"
    (fun _ => route_fulfill None (JObj []))) ;;
  invoke (page_route "**/api/logs"
    (fun _ => route_fulfill None (JObj [("entries", JArr [])]))) ;;
  invoke (page_route "**/api/conversations"
    (fun _ => route_fulfill None
      (JObj [("conversations",
              JArr [JObj [("id", JStr "c1"); ("title", JStr "Chat 1")]])]))) ;;
  invoke (page_route "**/api/conversations/*/messages"
    (fun _ => route_fulfill None
      (JObj [("messages",
              JArr [JObj [("id", JStr "m1"); ("role", JStr "user");
                          ("text", JStr "Hello"); ("timestamp", JNum 1)];
                    JObj [("id", JStr "m2"); ("role", JStr "assistant");
                          ("text", JStr "Hi there!"); ("timestamp", JNum 2)]])]))) ;;
  invoke (page_route "**/api/character"
    (fun _ => route_fulfill None
      (JObj [("character", JObj [("name", JStr "Milady")])]))) ;;
  invoke (page_route "**/api/update/status"
    (fun _ => route_fulfill None
      (JObj [("channel", JStr "dev"); ("currentVersion", JStr "1.0.0");
             ("latestVersion", JStr "1.0.0"); ("updateAvailable", JBool false)]))) ;;
  invoke (page_route "**/api/wallet/*"
    (fun _ => route_fulfill None (JObj []))) ;;
  invoke (page_route "**/api/plugins"
    (fun _ => route_fulfill None (JObj [("plugins", JArr [])]))) ;;
  invoke (page_route "**/api/skills"
    (fun _ => route_fulfill None (JObj [("skills", JArr [])]))) ;;
  print "Navigating to app..." ;;
  try_except
    (invoke (page_goto "http://localhost:5173" 60000))
    (fun e =>
       print ("Navigation failed: " ++ str e)%string ;;
       invoke (page_screenshot "verification_failed.png" None) ;;
       invoke browser_close ;;
       return_) ;;
  print "Waiting for chat input..." ;;
  try_except
    (invoke (page_wait_for_selector "textarea" 30000) ;;
     invoke (page_fill "textarea" "Testing performance optimization") ;;
     invoke (page_screenshot "verification_chat.png" None) ;;
     print "Screenshot saved to verification_chat.png")
    (fun e =>
       print ("Interaction failed: " ++ str e)%string ;;
       invoke (page_screenshot "verification_error.png" None)) ;;
  invoke browser_close.

(** How a call of [run] ends: it returns [None] (by falling off the end or
    by [return]) or an exception leaves it. *)
Inductive result : Type :=
| Returned
| Raised (e : exn).

Definition run (w : world) : result * list event :=
  match run_body w with
  | (Normal _, t) => (Returned, t)
  | (Return, t) => (Returned, t)
  | (Raise e, t) => (Raised e, t)
  end.

Definition outcome (w : world) : result := fst (run w).
Definition trace (w : world) : list event := snd (run w).

(** ** What a run leaves behind, read off its trace *)

(** Executions of [browser.close()]. *)
Definition is_close (ev : event) : bool :=
  match ev with Called browser_close _ => true | _ => false end.

Definition close_count (t : list event) : nat := List.length (filter is_close t).

(** Image files on disk: a screenshot call that returned has written its
    [path]; one that raised has written nothing. *)
Definition files_written (t : list event) : list string :=
  flat_map (fun ev => match ev with
                      | Called (page_screenshot p _) None => [p]
                      | _ => []
                      end) t.

(** Lines on standard output. *)
Definition stdout (t : list event) : list string :=
  flat_map (fun ev => match ev with Printed l => [l] | _ => [] end) t.

(** The binding calls that were started, in order. *)
Definition calls (t : list event) : list call :=
  flat_map (fun ev => match ev with Called c _ => [c] | _ => [] end) t.

(** The page's interception rules.  [page.route] puts the new rule in front
    of the older ones, so the list is most recent first. *)
Definition registered_routes (t : list event) : list (string * handler) :=
  fold_left (fun acc ev => match ev with
                           | Called (page_route p h) None => (p, h) :: acc
                           | _ => acc
                           end) t [].

(** The [full_page] parameter of the bindings' [page.screenshot], which the
    script never passes: the capture is of the whole scrollable page when
    it is true and of the visible viewport otherwise, and it is false when
    left out. *)
Definition captures_full_page (full_page : option bool) : bool :=
  match full_page with Some b => b | None => false end.

(** The calls of the navigation and interaction phases. *)
Definition goto_app : call := page_goto "http://localhost:5173" 60000.
Definition wait_textarea : call := page_wait_for_selector "textarea" 30000.
Definition fill_textarea : call :=
  page_fill "textarea" "Testing performance optimization".
Definition shot (path : string) : call := page_screenshot path None.

(** Browser, context and page acquisition and the route registrations all
    return: the run reaches the navigation phase. *)
Definition is_setup (c : call) : bool :=
  match c with
  | chromium_launch _ | new_context | new_page | page_route _ _ => true
  | _ => false
  end.

Definition setup_ok (w : world) : Prop :=
  forall c, is_setup c = true -> w c = None.

(** The events of a trace from the navigation phase on: the successful
    set-up calls in front are dropped. *)
Fixpoint after_setup (t : list event) : list event :=
  match t with
  | Called c None :: t' => if is_setup c then after_setup t' else t
  | _ => t
  end.

(** A diagnostic screenshot (the one taken after a navigation or an
    interaction failure) raised. *)
Definition is_failed_diagnostic (ev : event) : bool :=
  match ev with
  | Called (page_screenshot p _) (Some _) =>
      String.eqb p "verification_failed.png" ||
      String.eqb p "verification_error.png"
  | _ => false
  end.

Definition diagnostic_raised (t : list event) : bool :=
  existsb is_failed_diagnostic t.

(** Navigation raised [e]. *)
Definition nav_raises (w : world) (e : exn) : Prop := w goto_app = Some e.

(** Navigation returned and a step of the interaction phase ([try] body,
    source lines 48 to 55) raised [e]. *)
Definition interaction_raises (w : world) (e : exn) : Prop :=
  w goto_app = None /\
  (w wait_textarea = Some e \/
   (w wait_textarea = None /\
    (w fill_textarea = Some e \/
     (w fill_textarea = None /\
      w (shot "verification_chat.png") = Some e)))).

(** Sample worlds. *)
Definition all_fine : world := fun _ => None.

(** The dev server is down and the working directory is not writable. *)
Definition server_down_readonly_dir : world :=
  fun c => match c with
           | page_goto _ _ =>
               Some (Exception "net::ERR_CONNECTION_REFUSED at http://localhost:5173/")
           | page_screenshot _ _ =>
               Some (Exception "[Errno 13] Permission denied")
           | _ => None
           end.

(** The dev server is down; everything else works. *)
Definition server_down : world :=
  fun c => match c with
           | page_goto _ _ =>
               Some (Exception "net::ERR_CONNECTION_REFUSED at http://localhost:5173/")
           | _ => None
           end.

(** The page loads but renders no textarea. *)
Definition no_textarea : world :=
  fun c => match c with
           | page_wait_for_selector _ _ =>
               Some (Exception "Timeout 30000ms exceeded.")
           | _ => None
           end.

(** The page renders no textarea and the working directory is not
    writable. *)
Definition no_textarea_readonly_dir : world :=
  fun c => match c with
           | page_wait_for_selector _ _ =>
               Some (Exception "Timeout 30000ms exceeded.")
           | page_screenshot _ _ =>
               Some (Exception "[Errno 13] Permission denied")
           | _ => None
           end.

(** The textarea is rendered but cannot be edited. *)
Definition textarea_disabled : world :=
  fun c => match c with
           | page_fill _ _ =>
               Some (Exception "Timeout 30000ms exceeded: element is not enabled")
           | _ => None
           end.

(** The fixture table: the rules a run has registered once set-up is
    through.  It is read off the script itself. *)
Definition route_table : list (string * handler) :=
  registered_routes (trace all_fine).

Definition route_patterns : list string := map fst route_table.

(** The same table as plain data, in the order of the source (lines 10 to
    33): the glob and the JSON document answered for it. *)
Definition messages_fixture : json :=
  JObj [("messages",
         JArr [JObj [("id", JStr "m1"); ("role", JStr "user");
                     ("text", JStr "Hello"); ("timestamp", JNum 1)];
               JObj [("id", JStr "m2"); ("role", JStr "assistant");
                     ("text", JStr "Hi there!"); ("timestamp", JNum 2)]])].

Definition fixtures : list (string * json) :=
  [("**/api/onboarding/status", JObj [("complete", JBool true)]);
   ("**/api/onboarding/options", JObj [("options", JArr [])]);
   ("**/api/status",
    JObj [("state", JStr "running"); ("agentName", JStr "Milady")]);
   ("**/api/auth/status",
    JObj [("required", JBool false); ("pairingEnabled", JBool false);
          ("expiresAt", JNull)]);
   ("**/api/workbench/overview", JObj []);
   ("**/api/logs", JObj [("entries", JArr [])]);
   ("**/api/conversations",
    JObj [("conversations",
           JArr [JObj [("id", JStr "c1"); ("title", JStr "Chat 1")]])]);
   ("**/api/conversations/*/messages", messages_fixture);
   ("**/api/character", JObj [("character", JObj [("name", JStr "Milady")])]);
   ("**/api/update/status",
    JObj [("channel", JStr "dev"); ("currentVersion", JStr "1.0.0");
          ("latestVersion", JStr "1.0.0"); ("updateAvailable", JBool false)]);
   ("**/api/wallet/*", JObj []);
   ("**/api/plugins", JObj [("plugins", JArr [])]);
   ("**/api/skills", JObj [("skills", JArr [])])].

(** ** URL globs and request dispatch

    The script hands its globs to [page.route]; matching a URL against a
    glob and picking the rule for a request are done by the Playwright
    bindings, which are not part of [src/].  The definitions below model
    that part.  A glob is read left to right into an anchored pattern: a
    lone [*] (or a run of stars that is not a whole path component) stands
    for any characters other than [/]; a run of two or more stars standing
    between the start or a [/] and a [/] or the end stands, together with
    the [/] after it, for any number of whole [/]-terminated chunks; every
    other character stands for itself.  The pattern is matched against the
    whole URL of the request, query string included. *)
Inductive token : Type :=
| TLit (c : ascii)
| TStar
| TDeep.

Definition slash : ascii := "/"%char.
Definition star : ascii := "*"%char.

Definition is_sep (c : option ascii) : bool :=
  match c with None => true | Some d => Ascii.eqb d slash end.

Definition is_deep (before : option ascii) (stars : nat) (after : option ascii)
  : bool :=
  Nat.ltb 1 stars && is_sep before && is_sep after.

(** Modelled from the spec: the reading of a "URL-glob pattern", which the
    bindings do and [src/] does not contain.  In [glob_tokens before stars
    g], [stars] is the length of the run of stars just read and [before]
    the character in front of that run (or in front of [g] when no run is
    open). *)
Fixpoint glob_tokens (before : option ascii) (stars : nat) (g : list ascii)
  : list token :=
  match g with
  | [] =>
      match stars with
      | O => []
      | _ => [if is_deep before stars None then TDeep else TStar]
      end
  | c :: g' =>
      if Ascii.eqb c star then glob_tokens before (S stars) g'
      else
        match stars with
        | O => TLit c :: glob_tokens (Some c) 0 g'
        | _ =>
            if is_deep before stars (Some c)
            then TDeep :: glob_tokens (Some c) 0 g'
            else TStar :: TLit c :: glob_tokens (Some c) 0 g'
        end
  end.

(** The characters with a meaning of their own in a glob other than the
    star: [?], brackets, braces, the comma and the backslash.  A glob free
    of them is made of stars and literal characters only. *)
Definition is_special (c : ascii) : bool :=
  existsb (Ascii.eqb c)
    ["?"%char; "["%char; "]"%char; "{"%char; "}"%char; ","%char;
     ascii_of_nat 92].

Definition plain_glob (g : string) : bool :=
  forallb (fun c => negb (is_special c)) (list_ascii_of_string g).

(** [star_from k s]: some slash-free prefix of [s] can be skipped so that
    [k] accepts the rest. *)
Fixpoint star_from (k : list ascii -> bool) (s : list ascii) : bool :=
  k s ||
  match s with
  | [] => false
  | d :: s' => negb (Ascii.eqb d slash) && star_from k s'
  end.

(** [deep_from k b s]: some run of whole chunks of [s] can be skipped so
    that [k] accepts the rest; a chunk is slash-free text closed by a [/]
    or by the end of the input, and [b] says whether [s] starts at a chunk
    boundary. *)
Fixpoint deep_from (k : list ascii -> bool) (b : bool) (s : list ascii)
  : bool :=
  match s with
  | [] => k []
  | d :: s' => (b && k s) || deep_from k (Ascii.eqb d slash) s'
  end.

(** Modelled from the spec: whether a text matches a glob read into
    tokens, end to end; the matcher is the bindings' and is not in
    [src/].  A single star does not match across a path separator. *)
Fixpoint gmatch (toks : list token) (s : list ascii) {struct toks} : bool :=
  match toks with
  | [] => match s with [] => true | _ => false end
  | TLit c :: r =>
      match s with
      | [] => false
      | d :: s' => Ascii.eqb c d && gmatch r s'
      end
  | TStar :: r => star_from (gmatch r) s
  | TDeep :: r => deep_from (gmatch r) true s
  end.

(** Modelled from the spec: "a request matching" a registered pattern; the
    test is made by the bindings' router, which is not in [src/]. *)
Definition url_matches (pattern url : string) : bool :=
  gmatch (glob_tokens None 0 (list_ascii_of_string pattern))
         (list_ascii_of_string url).

(** Modelled from the spec: the bindings' router, which is not in [src/].
    A rule "intercepts every request matching its pattern": the request
    goes to the first rule, most recent first, whose glob matches its URL;
    a request no rule matches is not intercepted and goes to the network
    ([None]). *)
Definition dispatch (routes : list (string * handler)) (req : request)
  : option response :=
  match find (fun r => url_matches (fst r) (req_url req)) routes with
  | Some (_, h) => Some (h (mkRoute req))
  | None => None
  end.

(** ** The segment view of a route glob

    Every glob of the fixture table has the shape [**/s1/.../sk] with each
    [si] a literal or a lone star.  Such a glob only looks at the last [k]
    [/]-separated segments of the URL. *)
Inductive seg : Type :=
| SLit (s : list ascii)
| SAny.

Fixpoint noslash (s : list ascii) : bool :=
  match s with
  | [] => true
  | c :: s' => negb (Ascii.eqb c slash) && noslash s'
  end.

Fixpoint chars_eqb (a b : list ascii) : bool :=
  match a, b with
  | [], [] => true
  | c :: a', d :: b' => Ascii.eqb c d && chars_eqb a' b'
  | _, _ => false
  end.

(** The [/]-separated segments of a text (never the empty list). *)
Fixpoint split_slash (s : list ascii) : list (list ascii) :=
  match s with
  | [] => [[]]
  | c :: s' =>
      if Ascii.eqb c slash then [] :: split_slash s'
      else match split_slash s' with
           | [] => [[c]]
           | h :: t => (c :: h) :: t
           end
  end.

Definition seg_ok (p : seg) (s : list ascii) : bool :=
  match p with
  | SLit l => chars_eqb l s
  | SAny => true
  end.

(** The segments [ss] start with segments accepted by [ps], in order. *)
Fixpoint prefix_match (ps : list seg) (ss : list (list ascii)) : bool :=
  match ps, ss with
  | [], _ => true
  | _ :: _, [] => false
  | p :: ps', s :: ss' => seg_ok p s && prefix_match ps' ss'
  end.

(** The segments [ss] are accepted by [ps], one for one. *)
Fixpoint segs_match (ps : list seg) (ss : list (list ascii)) : bool :=
  match ps, ss with
  | [], [] => true
  | p :: ps', s :: ss' => seg_ok p s && segs_match ps' ss'
  | _, _ => false
  end.

(** The last segments of [ss] are accepted by [ps]. *)
Definition tail_match (ps : list seg) (ss : list (list ascii)) : bool :=
  prefix_match (rev ps) (rev ss).

Definition seg_tokens (p : seg) : list token :=
  match p with
  | SLit l => map TLit l
  | SAny => [TStar]
  end.

(** The tokens of [s1/.../sk]. *)
Fixpoint body_tokens (ps : list seg) : list token :=
  match ps with
  | [] => []
  | [p] => seg_tokens p
  | p :: ps' => seg_tokens p ++ TLit slash :: body_tokens ps'
  end.

Definition wf_seg (p : seg) : bool :=
  match p with
  | SLit [] => false
  | SLit l => noslash l
  | SAny => true
  end.

Definition wf_segs (ps : list seg) : bool :=
  match ps with [] => false | _ => forallb wf_seg ps end.

(** The segments of a glob of the shape [**/s1/.../sk]. *)
Definition seg_of_chars (s : list ascii) : seg :=
  if chars_eqb s [star] then SAny else SLit s.

Definition glob_segs (pattern : string) : list seg :=
  match split_slash (list_ascii_of_string pattern) with
  | _ :: rest => map seg_of_chars rest
  | [] => []
  end.

Definition token_eqb (a b : token) : bool :=
  match a, b with
  | TLit c, TLit d => Ascii.eqb c d
  | TStar, TStar => true
  | TDeep, TDeep => true
  | _, _ => false
  end.

Fixpoint tokens_eqb (a b : list token) : bool :=
  match a, b with
  | [], [] => true
  | x :: a', y :: b' => token_eqb x y && tokens_eqb a' b'
  | _, _ => false
  end.

(** [pattern] is a glob of the shape [**/s1/.../sk]. *)
Definition segmented (pattern : string) : bool :=
  wf_segs (glob_segs pattern) &&
  tokens_eqb (glob_tokens None 0 (list_ascii_of_string pattern))
             (TDeep :: body_tokens (glob_segs pattern)).

(** Two segment lists, both read from the last segment backwards, that no
    list of segments can satisfy together clash at some position. *)
Definition seg_compat (p q : seg) : bool :=
  match p, q with
  | SLit a, SLit b => chars_eqb a b
  | _, _ => true
  end.

Fixpoint compatible (ps qs : list seg) : bool :=
  match ps, qs with
  | p :: ps', q :: qs' => seg_compat p q && compatible ps' qs'
  | _, _ => true
  end.

Definition globs_compatible (p q : string) : bool :=
  compatible (rev (glob_segs p)) (rev (glob_segs q)).


(** ** Further observations on a run *)

(** The browser executable is missing: the launch itself raises. *)
Definition launch_fails : world :=
  fun c => match c with
           | chromium_launch _ =>
               Some (Exception "Executable doesn't exist at chromium")
           | _ => None
           end.





(** ** Raised objects that are not instances of [Exception]

    Both handlers of the script are [except Exception]: they catch
    instances of [Exception] and let everything else through
    ([KeyboardInterrupt], [SystemExit] and the other classes that derive
    from [BaseException] only).  [run] above reads every raised object as
    an instance of [Exception].  Here the class is kept apart: an [exn] is
    a raised object with its text, and [is_exception] says whether it is an
    instance of [Exception]. *)

(** [try: body except Exception as e: h e], with the class test. *)
Definition try_except_Exception {A} (is_exception : exn -> bool)
  (body : M A) (h : exn -> M A) : M A :=
  fun w =>
    match body w with
    | (Raise e, t1) =>
        if is_exception e then let (r, t2) := h e w in (r, t1 ++ t2)
        else (Raise e, t1)
    | other => other
    end.

(** The script once more (source lines 5 to 61), its two handlers
    catching instances of [Exception] only. *)
Definition run_body_by_class (is_exception : exn -> bool) : M unit :=
  invoke (chromium_launch true) ;;
  invoke new_context ;;
  invoke new_page ;;
  invoke (page_route "**/api/onboarding/status"
    (fun _ => route_fulfill None (JObj [("complete", JBool true)]))) ;;
  invoke (page_route "**/api/onboarding/options"
    (fun _ => route_fulfill None (JObj [("options", JArr [])]))) ;;
  invoke (page_route "**/api/status"
    (fun _ => route_fulfill None
      (JObj [("state", JStr "running"); ("agentName", JStr "Milady")]))) ;;
  invoke (page_route "**/api/auth/status"
    (fun _ => route_fulfill None
      (JObj [("required", JBool false); ("pairingEnabled", JBool false);
             ("expiresAt", JNull)]))) ;;
  invoke (page_route "**/api/workbench/overview"
    (fun _ => route_fulfill None (JObj []))) ;;
  invoke (page_route "**/api/logs"
    (fun _ => route_fulfill None (JObj [("entries", JArr [])]))) ;;
  invoke (page_route "**/api/conversations"
    (fun _ => route_fulfill None
      (JObj [("conversations",
              JArr [JObj [("id", JStr "c1"); ("title", JStr "Chat 1")]])]))) ;;
  invoke (page_route "**/api/conversations/*/messages"
    (fun _ => route_fulfill None
      (JObj [("messages",
              JArr [JObj [("id", JStr "m1"); ("role", JStr "user");
                          ("text", JStr "Hello"); ("timestamp", JNum 1)];
                    JObj [("id", JStr "m2"); ("role", JStr "assistant");
                          ("text", JStr "Hi there!"); ("timestamp", JNum 2)]])]))) ;;
  invoke (page_route "**/api/character"
    (fun _ => route_fulfill None
      (JObj [("character", JObj [("name", JStr "Milady")])]))) ;;
  invoke (page_route "**/api/update/status"
    (fun _ => route_fulfill None
      (JObj [("channel", JStr "dev"); ("currentVersion", JStr "1.0.0");
             ("latestVersion", JStr "1.0.0"); ("updateAvailable", JBool false)]))) ;;
  invoke (page_route "**/api/wallet/*"
    (fun _ => route_fulfill None (JObj []))) ;;
  invoke (page_route "**/api/plugins"
    (fun _ => route_fulfill None (JObj [("plugins", JArr [])]))) ;;
  invoke (page_route "**/api/skills"
    (fun _ => route_fulfill None (JObj [("skills", JArr [])]))) ;;
  print "Navigating to app..." ;;
  try_except_Exception is_exception
    (invoke (page_goto "http://localhost:5173" 60000))
    (fun e =>
       print ("Navigation failed: " ++ str e)%string ;;
       invoke (page_screenshot "verification_failed.png" None) ;;
       invoke browser_close ;;
       return_) ;;
  print "Waiting for chat input..." ;;
  try_except_Exception is_exception
    (invoke (page_wait_for_selector "textarea" 30000) ;;
     invoke (page_fill "textarea" "Testing performance optimization") ;;
     invoke (page_screenshot "verification_chat.png" None) ;;
     print "Screenshot saved to verification_chat.png")
    (fun e =>
       print ("Interaction failed: " ++ str e)%string ;;
       invoke (page_screenshot "verification_error.png" None)) ;;
  invoke browser_close.

Definition run_by_class (is_exception : exn -> bool) (w : world)
  : result * list event :=
  match run_body_by_class is_exception w with
  | (Normal _, t) => (Returned, t)
  | (Return, t) => (Returned, t)
  | (Raise e, t) => (Raised e, t)
  end.

(** Control-C while the page loads. *)
Definition interrupted_navigation : world :=
  fun c => match c with
           | page_goto _ _ => Some (Exception "KeyboardInterrupt")
           | _ => None
           end.

(** Every raised object is an instance of [Exception], except the
    keyboard interrupt. *)
Definition exception_unless_interrupt (e : exn) : bool :=
  negb (String.eqb (str e) "KeyboardInterrupt").

(** * Sample runs and sample URLs *)

Example run_all_fine :
  outcome all_fine = Returned /\
  after_setup (trace all_fine) =
    [Printed "Navigating to app...";
     Called goto_app None;
     Printed "Waiting for chat input...";
     Called wait_textarea None;
     Called fill_textarea None;
     Called (shot "verification_chat.png") None;
     Printed "Screenshot saved to verification_chat.png";
     Called browser_close None].
Proof. split; reflexivity. Qed.

Example run_server_down :
  outcome server_down = Returned /\
  files_written (trace server_down) = ["verification_failed.png"] /\
  close_count (trace server_down) = 1 /\
  calls (after_setup (trace server_down)) =
    [goto_app; shot "verification_failed.png"; browser_close].
Proof. repeat split; reflexivity. Qed.

Example run_server_down_readonly_dir :
  outcome server_down_readonly_dir =
    Raised (Exception "[Errno 13] Permission denied") /\
  files_written (trace server_down_readonly_dir) = [] /\
  close_count (trace server_down_readonly_dir) = 0.
Proof. repeat split; reflexivity. Qed.

Example run_textarea_disabled :
  outcome textarea_disabled = Returned /\
  files_written (trace textarea_disabled) = ["verification_error.png"] /\
  close_count (trace textarea_disabled) = 1.
Proof. repeat split; reflexivity. Qed.

Example glob_status :
  url_matches "**/api/status" "http://localhost:5173/api/status" = true /\
  url_matches "**/api/status" "http://localhost:5173/api/auth/status" = false /\
  url_matches "**/api/status" "http://localhost:5173/xapi/status" = false /\
  url_matches "**/api/status" "http://localhost:5173/api/status?verbose=1"
    = false.
Proof. repeat split; reflexivity. Qed.

Example glob_wallet :
  url_matches "**/api/wallet/*" "http://localhost:5173/api/wallet/balance"
    = true /\
  url_matches "**/api/wallet/*" "http://localhost:5173/api/wallet/nfts?page=2"
    = true /\
  url_matches "**/api/wallet/*" "http://localhost:5173/api/wallet/a/b"
    = false /\
  url_matches "**/api/wallet/*" "http://localhost:5173/api/wallet" = false.
Proof. repeat split; reflexivity. Qed.

Example glob_messages_tokens :
  glob_tokens None 0 (list_ascii_of_string "**/*/m") =
  [TDeep; TStar; TLit "/"; TLit "m"].
Proof. reflexivity. Qed.

(** * Properties of the glob model *)


Lemma chars_eqb_eq (a b : list ascii) : chars_eqb a b = true <-> a = b.
Proof.
  revert b; induction a as [|c a IH]; intros [|d b]; simpl; split;
    try congruence; try reflexivity.
  - intros H. apply andb_prop in H as [Hc Hab].
    apply Ascii.eqb_eq in Hc. apply IH in Hab. congruence.
  - intros H. injection H as -> ->.
    rewrite Ascii.eqb_refl. simpl. now apply IH.
Qed.

Lemma chars_eqb_refl (a : list ascii) : chars_eqb a a = true.
Proof. now apply chars_eqb_eq. Qed.

Lemma split_slash_nonempty (s : list ascii) : split_slash s <> [].
Proof.
  destruct s as [|c s]; simpl; [discriminate|].
  destruct (Ascii.eqb c slash); [discriminate|].
  destruct (split_slash s); discriminate.
Qed.

Lemma split_slash_noslash (w : list ascii) :
  noslash w = true -> split_slash w = [w].
Proof.
  induction w as [|c w IH]; simpl; [reflexivity|].
  intros H. apply andb_prop in H as [Hc Hw].
  apply negb_true_iff in Hc. rewrite Hc, (IH Hw). reflexivity.
Qed.

Lemma split_slash_app (a b : list ascii) :
  split_slash (a ++ slash :: b) = split_slash a ++ split_slash b.
Proof.
  induction a as [|c a IH]; simpl.
  - reflexivity.
  - destruct (Ascii.eqb c slash).
    + now rewrite IH.
    + rewrite IH. pose proof (split_slash_nonempty a) as Hne.
      destruct (split_slash a); [congruence | reflexivity].
Qed.

(** The two wildcards, for any continuation [k] of the match. *)
Section Wildcards.

Variable k : list ascii -> bool.

Lemma star_from_spec (s : list ascii) :
  star_from k s = true <->
  exists w t, s = w ++ t /\ noslash w = true /\ k t = true.
Proof.
  split.
  - induction s as [|d s IH]; simpl; intros H.
    + rewrite orb_false_r in H. exists [], []. auto.
    + apply orb_prop in H as [H|H].
      * exists [], (d :: s). auto.
      * apply andb_prop in H as [Hd H].
        destruct (IH H) as (w & t & -> & Hw & Ht).
        exists (d :: w), t. simpl. rewrite Hd, Hw. auto.
  - intros (w & t & -> & Hw & Ht).
    induction w as [|d w IH]; simpl.
    + destruct t; simpl; rewrite Ht; reflexivity.
    + simpl in Hw. apply andb_prop in Hw as [Hd Hw].
      rewrite Hd, (IH Hw). simpl. apply orb_true_r.
Qed.

(** What a deep wildcard can skip: nothing, everything, or a prefix that
    ends with a slash. *)
Lemma deep_from_inv (b : bool) (s : list ascii) :
  deep_from k b s = true ->
  exists t, k t = true /\
    (t = [] \/ (b = true /\ t = s) \/ exists P, s = P ++ slash :: t).
Proof.
  revert b; induction s as [|d s IH]; simpl; intros b H.
  - exists []. auto.
  - apply orb_prop in H as [H|H].
    + apply andb_prop in H as [Hb Hk]. exists (d :: s). auto.
    + destruct (IH _ H) as (t & Hk & [Ht | [[Hd Ht] | [P HP]]]).
      * exists t. auto.
      * apply Ascii.eqb_eq in Hd. subst. exists s. split; [assumption|].
        right; right. exists []. reflexivity.
      * subst s. exists t. split; [assumption|].
        right; right. exists (d :: P). reflexivity.
Qed.



End Wildcards.

Lemma gmatch_lits (l : list ascii) (r : list token) (s : list ascii) :
  gmatch (map TLit l ++ r) s = true <->
  exists s', s = l ++ s' /\ gmatch r s' = true.
Proof.
  revert s; induction l as [|c l IH]; intros s; simpl.
  - split; [intros H; exists s; auto | intros (s' & -> & H); exact H].
  - destruct s as [|d s].
    + split; [discriminate | intros (s' & Hs & _); discriminate].
    + split.
      * intros H. apply andb_prop in H as [Hc H].
        apply Ascii.eqb_eq in Hc. subst d.
        apply IH in H as (s' & -> & H). exists s'. auto.
      * intros (s' & Hs & H). injection Hs as -> ->.
        rewrite Ascii.eqb_refl. simpl. apply IH. exists s'. auto.
Qed.

Lemma gmatch_nil (s : list ascii) : gmatch [] s = true <-> s = [].
Proof. destruct s; simpl; split; congruence. Qed.

Lemma gmatch_seg (p : seg) (r : list token) (s : list ascii) :
  wf_seg p = true ->
  gmatch (seg_tokens p ++ r) s = true ->
  exists w s', s = w ++ s' /\ noslash w = true /\ seg_ok p w = true /\
               gmatch r s' = true.
Proof.
  destruct p as [l|]; simpl; intros Hwf H.
  - apply gmatch_lits in H as (s' & -> & H).
    exists l, s'. repeat split; auto using chars_eqb_refl.
    destruct l; [discriminate | exact Hwf].
  - apply star_from_spec in H as (w & t & -> & Hw & Ht).
    exists w, t. auto.
Qed.

Lemma body_tokens_match (ps : list seg) (t : list ascii) :
  wf_segs ps = true ->
  gmatch (body_tokens ps) t = true ->
  segs_match ps (split_slash t) = true.
Proof.
  revert t; induction ps as [|p ps IH]; intros t Hwf H; [discriminate|].
  simpl in Hwf. apply andb_prop in Hwf as [Hp Hps].
  destruct ps as [|p' ps].
  - change (body_tokens [p]) with (seg_tokens p) in H.
    rewrite <- (app_nil_r (seg_tokens p)) in H.
    apply gmatch_seg in H as (w & s' & -> & Hw & Hok & Hnil); [|assumption].
    apply gmatch_nil in Hnil. subst s'. rewrite app_nil_r.
    rewrite (split_slash_noslash _ Hw). simpl. now rewrite Hok.
  - change (body_tokens (p :: p' :: ps))
      with (seg_tokens p ++ TLit slash :: body_tokens (p' :: ps)) in H.
    apply gmatch_seg in H as (w & s' & -> & Hw & Hok & H); [|assumption].
    destruct s' as [|d s']; [discriminate|].
    cbn [gmatch] in H. apply andb_prop in H as [Hd H].
    apply Ascii.eqb_eq in Hd. subst d.
    rewrite split_slash_app, (split_slash_noslash _ Hw). simpl.
    rewrite Hok. simpl. apply IH; assumption.
Qed.

Lemma segs_match_app (a c : list seg) (b d : list (list ascii)) :
  segs_match a b = true -> segs_match c d = true ->
  segs_match (a ++ c) (b ++ d) = true.
Proof.
  revert b; induction a as [|p a IH]; intros [|s b]; simpl;
    try discriminate; auto.
  intros H Hcd. apply andb_prop in H as [Hp H].
  rewrite Hp. simpl. now apply IH.
Qed.

Lemma segs_match_rev (a : list seg) (b : list (list ascii)) :
  segs_match a b = true -> segs_match (rev a) (rev b) = true.
Proof.
  revert b; induction a as [|p a IH]; intros [|s b]; simpl;
    try discriminate; auto.
  intros H. apply andb_prop in H as [Hp H].
  apply segs_match_app; [now apply IH | simpl; now rewrite Hp].
Qed.

Lemma segs_match_prefix (a : list seg) (b x : list (list ascii)) :
  segs_match a b = true -> prefix_match a (b ++ x) = true.
Proof.
  revert b; induction a as [|p a IH]; intros [|s b]; simpl;
    try discriminate; auto.
  intros H. apply andb_prop in H as [Hp H]. rewrite Hp. simpl. now apply IH.
Qed.

Lemma tail_match_app (ps : list seg) (pre ss : list (list ascii)) :
  segs_match ps ss = true -> tail_match ps (pre ++ ss) = true.
Proof.
  intros H. unfold tail_match. rewrite rev_app_distr.
  apply segs_match_prefix, segs_match_rev, H.
Qed.

(** A glob of the shape [**/s1/.../sk] accepts a text only if the last [k]
    segments of the text are accepted by [s1], ..., [sk]. *)
Lemma deep_glob_tail (ps : list seg) (u : list ascii) :
  wf_segs ps = true ->
  gmatch (TDeep :: body_tokens ps) u = true ->
  tail_match ps (split_slash u) = true.
Proof.
  intros Hwf H. simpl in H.
  apply deep_from_inv in H as (t & Hk & Hcase).
  pose proof (body_tokens_match _ _ Hwf Hk) as Hseg.
  destruct Hcase as [-> | [[_ ->] | [P ->]]].
  - simpl in Hseg. destruct ps as [|p [|p' ps]]; try discriminate.
    + unfold tail_match. simpl.
      pose proof (split_slash_nonempty u) as Hne.
      destruct (split_slash u) as [|s0 ss] eqn:E; [congruence|].
      assert (Hr : rev (s0 :: ss) <> []).
      { intros Hr. apply (f_equal (@rev _)) in Hr.
        rewrite rev_involutive in Hr. discriminate. }
      destruct (rev (s0 :: ss)) as [|x xs]; [congruence|].
      simpl in Hwf. destruct p as [[|c l]|]; try discriminate.
      reflexivity.
    + simpl in Hseg. apply andb_prop in Hseg as [_ Hf]. discriminate.
  - apply (tail_match_app ps [] _ Hseg).
  - rewrite split_slash_app. now apply tail_match_app.
Qed.

Lemma tokens_eqb_eq (a b : list token) : tokens_eqb a b = true -> a = b.
Proof.
  revert b; induction a as [|x a IH]; intros [|y b]; simpl;
    try discriminate; auto.
  intros H. apply andb_prop in H as [Hx H]. f_equal; [|now apply IH].
  destruct x, y; simpl in Hx; try discriminate; auto.
  apply Ascii.eqb_eq in Hx. congruence.
Qed.

Lemma url_matches_tail (p u : string) :
  segmented p = true ->
  url_matches p u = true ->
  tail_match (glob_segs p) (split_slash (list_ascii_of_string u)) = true.
Proof.
  unfold segmented, url_matches. intros H Hm.
  apply andb_prop in H as [Hwf Htok].
  apply tokens_eqb_eq in Htok. rewrite Htok in Hm.
  now apply deep_glob_tail.
Qed.

Lemma seg_ok_compat (p q : seg) (s : list ascii) :
  seg_ok p s = true -> seg_ok q s = true -> seg_compat p q = true.
Proof.
  destruct p as [a|], q as [b|]; simpl; auto.
  intros Ha Hb. apply chars_eqb_eq in Ha, Hb. subst. apply chars_eqb_refl.
Qed.

Lemma prefix_match_compatible (ps qs : list seg) (ss : list (list ascii)) :
  prefix_match ps ss = true -> prefix_match qs ss = true ->
  compatible ps qs = true.
Proof.
  revert qs ss; induction ps as [|p ps IH]; intros [|q qs] [|s ss]; simpl;
    try discriminate; auto.
  intros Hp Hq. apply andb_prop in Hp as [Hp Hps].
  apply andb_prop in Hq as [Hq Hqs].
  rewrite (seg_ok_compat _ _ _ Hp Hq). simpl. eapply IH; eassumption.
Qed.


(** * The phases of a run *)

(** Case analysis on a run: the run is named, unfolded once, and split
    along the outcome of every call it reaches. *)
Ltac name_run w r E :=
  unfold trace, outcome;
  unfold nav_raises, interaction_raises, goto_app, wait_textarea,
    fill_textarea, shot in *;
  remember (run w) as r eqn:E;
  unfold run, run_body, bind, try_except, invoke, print, return_ in E.

Ltac use_setup_in E Hs :=
  repeat match type of E with
         | context [?w ?c] =>
             lazymatch eval lazy in (is_setup c) with
             | true => rewrite (Hs c eq_refl) in E
             end
         end.

Ltac use_world_in E :=
  repeat match goal with
         | H : ?w ?c = _ |- _ =>
             match type of E with
             | context [w c] => rewrite H in E
             end
         end.

Ltac world_cases_in E w :=
  repeat match type of E with
         | context [w ?c] =>
             destruct (w c) as [?|] eqn:?; cbn [fst snd app] in E
         end.

Ltac run_cases w Hs :=
  let r := fresh "r" in
  let E := fresh "E" in
  name_run w r E; use_setup_in E Hs; use_world_in E; world_cases_in E w;
  cbn [fst snd app] in E; subst r; cbn [fst snd].

Ltac run_cases_all w :=
  let r := fresh "r" in
  let E := fresh "E" in
  name_run w r E; world_cases_in E w;
  cbn [fst snd app] in E; subst r; cbn [fst snd].

Ltac in_trace :=
  solve [cbn [In]; repeat (first [left; reflexivity | right])].

Ltac absurd_in H :=
  vm_compute in H;
  repeat (destruct H as [H | H]; [discriminate H|]);
  contradiction H.

Lemma all_fine_setup : setup_ok all_fine.
Proof. intros c _. reflexivity. Qed.

Lemma server_down_setup : setup_ok server_down.
Proof. intros [] H; try reflexivity; discriminate H. Qed.

Lemma server_down_readonly_dir_setup : setup_ok server_down_readonly_dir.
Proof. intros [] H; try reflexivity; discriminate H. Qed.

Lemma no_textarea_setup : setup_ok no_textarea.
Proof. intros [] H; try reflexivity; discriminate H. Qed.

Lemma no_textarea_readonly_dir_setup : setup_ok no_textarea_readonly_dir.
Proof. intros [] H; try reflexivity; discriminate H. Qed.

Lemma textarea_disabled_setup : setup_ok textarea_disabled.
Proof. intros [] H; try reflexivity; discriminate H. Qed.

(** Once set-up is through, the page holds the thirteen rules of the
    fixture table, whatever happens later. *)
Lemma routes_after_setup (w : world) :
  setup_ok w -> registered_routes (trace w) = route_table.
Proof.
  intros Hs. run_cases w Hs; reflexivity.
Qed.

(** The three outcomes the script handles: each closes the browser once
    and leaves one image file. *)
Section HandledOutcomes.

Variable w : world.
Hypothesis setup : setup_ok w.

Lemma close_once_on_success :
  w goto_app = None -> w wait_textarea = None -> w fill_textarea = None ->
  w (shot "verification_chat.png") = None ->
  close_count (trace w) = 1 /\
  files_written (trace w) = ["verification_chat.png"] /\
  stdout (trace w) =
    ["Navigating to app..."; "Waiting for chat input...";
     "Screenshot saved to verification_chat.png"].
Proof.
  intros Hg Hw Hf Hc. run_cases w setup; repeat split; reflexivity.
Qed.

Lemma close_once_on_navigation_failure (e : exn) :
  nav_raises w e ->
  w (shot "verification_failed.png") = None ->
  close_count (trace w) = 1 /\
  files_written (trace w) = ["verification_failed.png"] /\
  stdout (trace w) =
    ["Navigating to app..."; ("Navigation failed: " ++ str e)%string].
Proof.
  intros Hg Hc. run_cases w setup; repeat split; reflexivity.
Qed.

Lemma close_once_on_interaction_failure (e : exn) :
  interaction_raises w e ->
  w (shot "verification_error.png") = None ->
  close_count (trace w) = 1 /\
  files_written (trace w) = ["verification_error.png"] /\
  stdout (trace w) =
    ["Navigating to app..."; "Waiting for chat input...";
     ("Interaction failed: " ++ str e)%string].
Proof.
  intros Hi Hc.
  destruct Hi as [Hg [Hw | [Hw [Hf | [Hf Hx]]]]];
    run_cases w setup; repeat split; reflexivity.
Qed.

End HandledOutcomes.

(** C1.  [browser.close()] is executed once in every run that gets through
    set-up, except when a diagnostic screenshot raises: then the exception
    leaves [run] from inside the [except] block and the close that follows
    it (source line 42, resp. 61) is never reached. *)
Theorem browser_close_count (w : world) :
  setup_ok w ->
  close_count (trace w) = if diagnostic_raised (trace w) then 0 else 1.
Proof.
  intros Hs. run_cases w Hs; reflexivity.
Qed.

Lemma browser_close_count_witness :
  setup_ok server_down_readonly_dir /\
  close_count (trace server_down_readonly_dir) = 0.
Proof.
  split.
  - exact server_down_readonly_dir_setup.
  - exact (browser_close_count server_down_readonly_dir
             server_down_readonly_dir_setup).
Defined.

(** C2.  An exception raised by a diagnostic screenshot is not swallowed:
    it is the outcome of [run], the failed screenshot is the last thing the
    run does, and the browser is not closed. *)
Theorem diagnostic_screenshot_error_propagates (w : world) (e e' : exn) :
  setup_ok w ->
  (nav_raises w e /\ w (shot "verification_failed.png") = Some e') \/
  (interaction_raises w e /\ w (shot "verification_error.png") = Some e') ->
  outcome w = Raised e' /\
  close_count (trace w) = 0 /\
  exists t path, trace w = t ++ [Called (shot path) (Some e')].
Proof.
  intros Hs H.
  destruct H as [[Hg Hx] | [[Hg [Hw | [Hw [Hf | [Hf Hc]]]]] Hx]];
    run_cases w Hs; (split; [reflexivity|]);
    (split; [reflexivity|]);
    match goal with
    | |- exists t path, ?l = _ =>
        exists (removelast l); eexists; reflexivity
    end.
Qed.

Lemma diagnostic_screenshot_error_propagates_witness :
  outcome no_textarea_readonly_dir =
    Raised (Exception "[Errno 13] Permission denied") /\
  close_count (trace no_textarea_readonly_dir) = 0.
Proof.
  pose proof (diagnostic_screenshot_error_propagates
                no_textarea_readonly_dir
                (Exception "Timeout 30000ms exceeded.")
                (Exception "[Errno 13] Permission denied")
                no_textarea_readonly_dir_setup
                (or_intror (conj (conj eq_refl (or_introl eq_refl)) eq_refl)))
    as [Ho [Hc _]].
  exact (conj Ho Hc).
Defined.

(** C3.  When navigation raises, the run prints the error and attempts the
    screenshot to [verification_failed.png]; it never retries and never
    enters the interaction phase.  The browser is closed and [run] returns
    only if that screenshot call returns: if it raises, the exception
    leaves [run] and the browser is left open. *)
Theorem navigation_failure_path (w : world) (e : exn) :
  setup_ok w -> nav_raises w e ->
  after_setup (trace w) =
    [Printed "Navigating to app...";
     Called goto_app (Some e);
     Printed ("Navigation failed: " ++ str e)%string;
     Called (shot "verification_failed.png")
            (w (shot "verification_failed.png"))] ++
    match w (shot "verification_failed.png") with
    | None => [Called browser_close (w browser_close)]
    | Some _ => []
    end /\
  outcome w =
    match w (shot "verification_failed.png"), w browser_close with
    | Some e', _ => Raised e'
    | None, Some e' => Raised e'
    | None, None => Returned
    end.
Proof.
  intros Hs Hg. run_cases w Hs; split; reflexivity.
Qed.

Lemma navigation_failure_path_witness :
  close_count (trace server_down_readonly_dir) = 0 /\
  outcome server_down_readonly_dir =
    Raised (Exception "[Errno 13] Permission denied").
Proof.
  pose proof (navigation_failure_path server_down_readonly_dir _
                server_down_readonly_dir_setup eq_refl) as [Ht Ho].
  split; [reflexivity | exact Ho].
Defined.

(** C4 as stated fails: with no textarea on the page and a diagnostic
    screenshot that raises, no [verification_error.png] is produced and
    the browser is not closed. *)
Lemma no_textarea_claim_fails :
  ~ (forall (w : world) (e : exn),
       setup_ok w -> w goto_app = None -> w wait_textarea = Some e ->
       In "verification_error.png" (files_written (trace w)) /\
       ~ In "verification_chat.png" (files_written (trace w)) /\
       close_count (trace w) = 1).
Proof.
  intros H.
  destruct (H no_textarea_readonly_dir _ no_textarea_readonly_dir_setup
              eq_refl eq_refl) as [Hin _].
  exact Hin.
Qed.

(** C4, amended.  When navigation returns and the wait for the textarea
    raises, the run prints the error and attempts the screenshot to
    [verification_error.png] without ever calling for
    [verification_chat.png]; when that attempt returns,
    [verification_error.png] is the one file written and the browser is
    closed once. *)
Theorem no_textarea_path (w : world) (e : exn) :
  setup_ok w -> w goto_app = None -> w wait_textarea = Some e ->
  after_setup (trace w) =
    [Printed "Navigating to app...";
     Called goto_app None;
     Printed "Waiting for chat input...";
     Called wait_textarea (Some e);
     Printed ("Interaction failed: " ++ str e)%string;
     Called (shot "verification_error.png")
            (w (shot "verification_error.png"))] ++
    match w (shot "verification_error.png") with
    | None => [Called browser_close (w browser_close)]
    | Some _ => []
    end /\
  ~ In "verification_chat.png" (files_written (trace w)) /\
  (w (shot "verification_error.png") = None ->
   files_written (trace w) = ["verification_error.png"] /\
   close_count (trace w) = 1).
Proof.
  intros Hs Hg Hw.
  run_cases w Hs;
    (split; [reflexivity|]);
    (split; [intros Hin; absurd_in Hin|]);
    intros Hx; try discriminate Hx; split; reflexivity.
Qed.

Lemma no_textarea_path_witness :
  ~ In "verification_chat.png" (files_written (trace no_textarea)) /\
  files_written (trace no_textarea) = ["verification_error.png"] /\
  close_count (trace no_textarea) = 1.
Proof.
  pose proof (no_textarea_path no_textarea _ no_textarea_setup
                eq_refl eq_refl) as [_ [Hn Hy]].
  exact (conj Hn (Hy eq_refl)).
Defined.

(** C5 as stated fails: the textarea can appear and the fill still raise
    (the element is disabled, or detached again); the run then never asks
    for [verification_chat.png]. *)
Lemma fill_then_capture_claim_fails :
  ~ (forall w : world,
       setup_ok w -> w goto_app = None -> w wait_textarea = None ->
       In fill_textarea (calls (trace w)) /\
       In (shot "verification_chat.png") (calls (trace w))).
Proof.
  intros H.
  destruct (H textarea_disabled textarea_disabled_setup eq_refl eq_refl)
    as [_ Hin].
  cbv in Hin.
  repeat (destruct Hin as [Hin | Hin]; [discriminate Hin|]).
  exact Hin.
Qed.

(** C5, amended.  When navigation returns and the textarea appears, the
    run calls [fill] on the [textarea] selector with exactly the literal
    text, and makes no other fill call; when the fill returns, the very
    next step is the screenshot call for [verification_chat.png], and
    when that returns too the file is written. *)
Theorem textarea_filled_then_captured (w : world) :
  setup_ok w -> w goto_app = None -> w wait_textarea = None ->
  (forall sel v, In (page_fill sel v) (calls (trace w)) ->
     sel = "textarea" /\ v = "Testing performance optimization") /\
  (exists t1 t2,
     trace w = t1 ++ Called wait_textarea None ::
                     Called fill_textarea (w fill_textarea) :: t2) /\
  (w fill_textarea = None ->
   exists t1 t2,
     trace w = t1 ++ Called fill_textarea None ::
                     Called (shot "verification_chat.png")
                            (w (shot "verification_chat.png")) :: t2) /\
  (w fill_textarea = None -> w (shot "verification_chat.png") = None ->
   files_written (trace w) = ["verification_chat.png"]).
Proof.
  intros Hs Hg Hw.
  run_cases w Hs; (split; [|split; [|split]]).
  all: try (intros sel v Hin; cbn in Hin;
            repeat (destruct Hin as [Hin | Hin];
                    [try discriminate Hin; injection Hin as <- <-; auto|]);
            contradiction).
  all: try match goal with
           | |- exists t1 t2, ?l = _ =>
               exists (firstn 19 l), (skipn 21 l); reflexivity
           end.
  all: try (intros Hf; try discriminate Hf;
            match goal with
            | |- exists t1 t2, ?l = _ =>
                exists (firstn 20 l), (skipn 22 l); reflexivity
            end).
  all: intros Hf Hc; try discriminate Hf; try discriminate Hc; reflexivity.
Qed.

Lemma textarea_filled_then_captured_witness :
  files_written (trace all_fine) = ["verification_chat.png"].
Proof.
  pose proof (textarea_filled_then_captured all_fine all_fine_setup
                eq_refl eq_refl) as [_ [_ [_ H]]].
  exact (H eq_refl eq_refl).
Defined.

(** C6 as stated fails: the screenshot call for [verification_chat.png]
    passes no [full_page] argument, so the capture is the viewport. *)
Lemma chat_screenshot_claim_fails :
  ~ (forall fp : option bool,
       In (page_screenshot "verification_chat.png" fp)
          (calls (trace all_fine)) ->
       captures_full_page fp = true).
Proof.
  intros H. specialize (H None).
  assert (Hin : In (page_screenshot "verification_chat.png" None)
                   (calls (trace all_fine))).
  { cbv. do 19 right. left. reflexivity. }
  specialize (H Hin). discriminate H.
Qed.

(** C6, amended.  Every screenshot call of a run, the one for
    [verification_chat.png] included, is made with a path only: none asks
    for a full-page capture. *)
Theorem screenshots_are_viewport_only
  (w : world) (path : string) (fp : option bool) :
  In (page_screenshot path fp) (calls (trace w)) ->
  fp = None /\ captures_full_page fp = false.
Proof.
  run_cases_all w; intros Hin; cbn in Hin;
    repeat (destruct Hin as [Hin | Hin];
            [try discriminate Hin; injection Hin as <- <-; auto|]);
    contradiction.
Qed.

Lemma screenshots_are_viewport_only_witness :
  In (page_screenshot "verification_chat.png" None)
     (calls (trace all_fine)) /\
  captures_full_page None = false.
Proof.
  assert (Hin : In (page_screenshot "verification_chat.png" None)
                   (calls (trace all_fine))).
  { cbv. do 19 right. left. reflexivity. }
  split; [exact Hin|].
  exact (proj2 (screenshots_are_viewport_only all_fine _ None Hin)).
Defined.

(** C8.  A run writes at most one image file, and always one of the three
    named ones: [verification_chat.png] only when navigation, wait and
    fill all returned, [verification_failed.png] only when navigation
    raised, [verification_error.png] only when navigation returned and a
    step of the interaction phase raised.  Screenshot calls are the only
    calls of the script that write to disk; everything else it leaves
    behind is the lines printed on standard output. *)
Theorem at_most_one_image_file (w : world) :
  (files_written (trace w) = [] \/
   files_written (trace w) = ["verification_chat.png"] \/
   files_written (trace w) = ["verification_failed.png"] \/
   files_written (trace w) = ["verification_error.png"]) /\
  (In "verification_chat.png" (files_written (trace w)) ->
   In (Called goto_app None) (trace w) /\
   In (Called wait_textarea None) (trace w) /\
   In (Called fill_textarea None) (trace w) /\
   ~ diagnostic_raised (trace w) = true) /\
  (In "verification_failed.png" (files_written (trace w)) ->
   exists e, In (Called goto_app (Some e)) (trace w)) /\
  (In "verification_error.png" (files_written (trace w)) ->
   In (Called goto_app None) (trace w) /\
   exists e, In (Called wait_textarea (Some e)) (trace w) \/
             In (Called fill_textarea (Some e)) (trace w) \/
             In (Called (shot "verification_chat.png") (Some e)) (trace w)).
Proof.
  run_cases_all w;
    (split; [vm_compute; auto 6|]);
    (split; [intros Hin; first
       [ absurd_in Hin
       | clear Hin;
         split; [in_trace | split; [in_trace | split;
           [in_trace | vm_compute; discriminate]]] ]|]);
    (split; [intros Hin; first
       [ absurd_in Hin | clear Hin; eexists; in_trace ]|]);
    intros Hin; first
       [ absurd_in Hin
       | clear Hin; split; [in_trace|];
         eexists; first [left; in_trace | right; left; in_trace
                        | right; right; in_trace] ].
Qed.

(** * The fixture table *)

Local Abbreviation chars := list_ascii_of_string.

Lemma route_table_fixtures :
  route_table =
  rev (map (fun pj => (fst pj, fun _ : route => route_fulfill None (snd pj)))
           fixtures).
Proof. reflexivity. Qed.

Lemma route_patterns_segmented : forallb segmented route_patterns = true.
Proof. vm_compute. reflexivity. Qed.

Lemma route_patterns_plain : forallb plain_glob route_patterns = true.
Proof. vm_compute. reflexivity. Qed.

Lemma route_patterns_clash :
  forallb (fun p =>
    forallb (fun q => implb (globs_compatible p q) (String.eqb p q))
            route_patterns) route_patterns = true.
Proof. vm_compute. reflexivity. Qed.

Lemma route_patterns_NoDup : NoDup route_patterns.
Proof.
  repeat constructor; intros Hin; cbv in Hin;
    repeat (destruct Hin as [Hin | Hin]; [discriminate Hin|]);
    exact Hin.
Qed.

(** No URL is accepted by two globs of the table. *)
Lemma route_patterns_disjoint (u p q : string) :
  In p route_patterns -> In q route_patterns ->
  url_matches p u = true -> url_matches q u = true -> p = q.
Proof.
  intros Hp Hq Hpu Hqu.
  pose proof route_patterns_segmented as Hseg.
  rewrite forallb_forall in Hseg.
  pose proof (url_matches_tail _ _ (Hseg _ Hp) Hpu) as Tp.
  pose proof (url_matches_tail _ _ (Hseg _ Hq) Hqu) as Tq.
  pose proof (prefix_match_compatible _ _ _ Tp Tq) as Hc.
  pose proof route_patterns_clash as Hcl.
  rewrite forallb_forall in Hcl. specialize (Hcl _ Hp).
  rewrite forallb_forall in Hcl. specialize (Hcl _ Hq).
  unfold globs_compatible in Hcl. rewrite Hc in Hcl.
  apply String.eqb_eq. exact Hcl.
Qed.

Lemma assoc_unique {A B} (l : list (A * B)) (a : A) (b b' : B) :
  NoDup (map fst l) -> In (a, b) l -> In (a, b') l -> b = b'.
Proof.
  induction l as [|[x y] l IH]; simpl; intros Hnd H1 H2; [contradiction|].
  inversion Hnd as [|? ? Hx Hnd']; subst.
  destruct H1 as [H1 | H1], H2 as [H2 | H2].
  - congruence.
  - injection H1 as -> ->. exfalso. apply Hx.
    change a with (fst (a, b')). now apply in_map.
  - injection H2 as -> ->. exfalso. apply Hx.
    change a with (fst (a, b)). now apply in_map.
  - now apply IH.
Qed.

Lemma find_unique_perm {A} (f : A -> bool) (l l' : list A) :
  (forall x y, In x l -> In y l -> f x = true -> f y = true -> x = y) ->
  Permutation l l' -> find f l' = find f l.
Proof.
  intros Hu Hp.
  destruct (find f l) as [x|] eqn:E, (find f l') as [y|] eqn:E'; auto.
  - apply find_some in E as [Hx Hfx], E' as [Hy Hfy].
    apply Permutation_sym in Hp.
    f_equal. symmetry. apply Hu; auto. eapply Permutation_in; eassumption.
  - apply find_some in E as [Hx Hfx].
    pose proof (find_none _ _ E' x (Permutation_in _ Hp Hx)). congruence.
  - apply find_some in E' as [Hy Hfy].
    apply Permutation_sym in Hp.
    pose proof (find_none _ _ E y (Permutation_in _ Hp Hy)). congruence.
Qed.

Lemma route_entry_unique (u : string) (r r' : string * handler) :
  In r route_table -> In r' route_table ->
  url_matches (fst r) u = true -> url_matches (fst r') u = true -> r = r'.
Proof.
  intros Hr Hr' Hm Hm'. destruct r as [p h], r' as [q h']. cbn [fst] in *.
  assert (Hp : In p route_patterns)
    by (unfold route_patterns; change p with (fst (p, h));
        apply in_map; exact Hr).
  assert (Hq : In q route_patterns)
    by (unfold route_patterns; change q with (fst (q, h'));
        apply in_map; exact Hr').
  pose proof (route_patterns_disjoint u p q Hp Hq Hm Hm') as Hpq.
  subst q. f_equal.
  exact (assoc_unique route_table p h h' route_patterns_NoDup Hr Hr').
Qed.

(** A request whose URL is accepted by the glob of a rule is answered by
    that rule. *)
Lemma dispatch_matching (p : string) (h : handler) (req : request) :
  In (p, h) route_table -> url_matches p (req_url req) = true ->
  dispatch route_table req = Some (h (mkRoute req)).
Proof.
  intros Hin Hm. unfold dispatch.
  destruct (find _ route_table) as [[q h']|] eqn:E.
  - apply find_some in E as [Hq Hmq].
    pose proof (route_entry_unique _ _ _ Hin Hq Hm Hmq) as Heq.
    injection Heq as -> ->. reflexivity.
  - pose proof (find_none _ _ E _ Hin) as Hn. cbn [fst] in Hn. congruence.
Qed.

(** C9.  The run registers thirteen rules; no URL is accepted by two of
    their globs; hence the answer to a request does not depend on the
    order in which the rules were registered. *)
Theorem route_patterns_do_not_overlap :
  List.length route_table = 13 /\
  (forall u p q : string,
     In p route_patterns -> In q route_patterns ->
     url_matches p u = true -> url_matches q u = true -> p = q) /\
  (forall (routes : list (string * handler)) (req : request),
     Permutation route_table routes ->
     dispatch routes req = dispatch route_table req).
Proof.
  split; [reflexivity|]. split; [exact route_patterns_disjoint|].
  intros routes req Hp. unfold dispatch.
  rewrite (find_unique_perm _ route_table routes); [reflexivity| |exact Hp].
  intros x y Hx Hy Hfx Hfy.
  exact (route_entry_unique (req_url req) x y Hx Hy Hfx Hfy).
Qed.

Lemma route_patterns_do_not_overlap_witness :
  dispatch (rev route_table)
           (mkRequest "http://localhost:5173/api/status" "GET" [] None) =
  dispatch route_table
           (mkRequest "http://localhost:5173/api/status" "GET" [] None).
Proof.
  exact (proj2 (proj2 route_patterns_do_not_overlap) (rev route_table) _
               (Permutation_rev route_table)).
Defined.

(** C7.  Every rule of the table answers every request handed to it with
    status 200 and its JSON document, whatever the request's method,
    headers, query string and body; a request whose URL the rule's glob
    accepts is handed to that rule.  The rule for
    [**/api/conversations/*/messages] answers with the two fixed
    messages. *)
Theorem mocked_request_gets_fixture (w : world) (p : string) (h : handler) :
  setup_ok w ->
  In (p, h) (registered_routes (trace w)) ->
  exists body : json,
    In (p, body) fixtures /\
    (forall rt : route, h rt = mkResponse 200 "application/json" body) /\
    (forall req : request,
       url_matches p (req_url req) = true ->
       dispatch (registered_routes (trace w)) req =
         Some (mkResponse 200 "application/json" body)) /\
    (p = "**/api/conversations/*/messages" -> body = messages_fixture).
Proof.
  intros Hs Hin. rewrite (routes_after_setup w Hs) in *.
  assert (Hd : forall req, url_matches p (req_url req) = true ->
                 dispatch route_table req = Some (h (mkRoute req)))
    by (intros req Hm; exact (dispatch_matching p h req Hin Hm)).
  rewrite route_table_fixtures in Hin.
  apply in_rev in Hin.
  apply in_map_iff in Hin as [[p' body] [Heq Hin]].
  cbn [fst snd] in Heq. injection Heq as -> <-.
  exists body. split; [assumption|]. split; [reflexivity|].
  split; [intros req Hm; now rewrite (Hd req Hm)|].
  intros ->. simpl in Hin.
  repeat (destruct Hin as [Hin | Hin];
          [try discriminate Hin; injection Hin as <-; reflexivity|]).
  contradiction.
Qed.

Lemma mocked_request_gets_fixture_witness :
  dispatch (registered_routes (trace all_fine))
    (mkRequest "http://localhost:5173/api/conversations/c1/messages"
               "POST" [("x-test", "1")] (Some "ignored")) =
  Some (mkResponse 200 "application/json" messages_fixture).
Proof.
  assert (Hin : In ("**/api/conversations/*/messages",
                    fun _ : route => route_fulfill None messages_fixture)
                   (registered_routes (trace all_fine))).
  { cbv. do 5 right. left. reflexivity. }
  destruct (mocked_request_gets_fixture all_fine _ _ all_fine_setup Hin)
    as [body [_ [_ [Hd Hb]]]].
  rewrite <- (Hb eq_refl). apply Hd. vm_compute. reflexivity.
Defined.

(** * The wallet glob *)

Lemma chars_app (a b : string) :
  chars (a ++ b)%string = chars a ++ chars b.
Proof. induction a as [|c a IH]; simpl; [reflexivity | now rewrite IH]. Qed.

Lemma chars_inj (a b : string) : chars a = chars b -> a = b.
Proof.
  intros H. rewrite <- (string_of_list_ascii_of_string a),
    <- (string_of_list_ascii_of_string b). now rewrite H.
Qed.





(** The segments, last first, of a URL two segments below
    [/api/wallet/]. *)
Lemma two_below_segments (origin a b : string) :
  noslash (chars a) = true -> noslash (chars b) = true ->
  rev (split_slash (chars (origin ++ "/api/wallet/" ++ a ++ "/" ++ b))) =
  chars b :: chars a :: chars "wallet" :: chars "api" ::
  rev (split_slash (chars origin)).
Proof.
  intros Ha Hb. rewrite chars_app.
  change (chars ("/api/wallet/" ++ a ++ "/" ++ b)%string)
    with (slash :: chars "api" ++ slash :: chars "wallet" ++ slash ::
          chars (a ++ "/" ++ b)%string).
  rewrite chars_app.
  change (chars ("/" ++ b)%string) with (slash :: chars b).
  rewrite !split_slash_app.
  rewrite (split_slash_noslash (chars a) Ha).
  rewrite (split_slash_noslash (chars b) Hb).
  rewrite !rev_app_distr. reflexivity.
Qed.

Lemma two_below_unmatched (origin a b p : string) :
  noslash (chars a) = true -> noslash (chars b) = true -> a <> "api"%string ->
  In p route_patterns ->
  url_matches p (origin ++ "/api/wallet/" ++ a ++ "/" ++ b) = false.
Proof.
  intros Ha Hb Hne Hp.
  destruct (url_matches p _) eqn:Hm; [exfalso | reflexivity].
  pose proof route_patterns_segmented as Hseg.
  rewrite forallb_forall in Hseg.
  pose proof (url_matches_tail _ _ (Hseg _ Hp) Hm) as Ht.
  unfold tail_match in Ht. rewrite (two_below_segments _ _ _ Ha Hb) in Ht.
  assert (Ha' : chars_eqb ["a"; "p"; "i"]%char (chars a) = false).
  { destruct (chars_eqb ["a"; "p"; "i"]%char (chars a)) eqn:E; [|reflexivity].
    apply chars_eqb_eq in E. apply (chars_inj "api" a) in E. congruence. }
  clear Hm Hseg.
  cbv [route_patterns] in Hp.
  change (map fst route_table) with
    (map fst (rev (map (fun pj => (fst pj,
       fun _ : route => route_fulfill None (snd pj))) fixtures))) in Hp.
  cbn [fixtures map rev app fst snd In] in Hp.
  repeat (destruct Hp as [<- | Hp];
    [ match type of Ht with
      | prefix_match ?ps _ = true =>
          let v := eval vm_compute in ps in change ps with v in Ht
      end;
      cbn [prefix_match seg_ok] in Ht;
      repeat match type of Ht with
             | (_ && _)%bool = true =>
                 let H1 := fresh "H" in
                 apply andb_prop in Ht as [H1 Ht]
             end;
      first [ congruence
            | match goal with
              | H : chars_eqb _ (chars "wallet") = true |- _ =>
                  vm_compute in H; discriminate H
              end ]
    | ]).
  exact Hp.
Qed.

Lemma two_below_not_intercepted (origin a b : string) (req : request) :
  noslash (chars a) = true -> noslash (chars b) = true -> a <> "api"%string ->
  req_url req = (origin ++ "/api/wallet/" ++ a ++ "/" ++ b)%string ->
  dispatch route_table req = None.
Proof.
  intros Ha Hb Hne Hu. unfold dispatch.
  destruct (find _ route_table) as [[q h]|] eqn:E; [exfalso | reflexivity].
  apply find_some in E as [Hq Hm]. cbn [fst] in Hm. rewrite Hu in Hm.
  assert (Hin : In q route_patterns)
    by (unfold route_patterns; change q with (fst (q, h));
        apply in_map; exact Hq).
  rewrite (two_below_unmatched origin a b q Ha Hb Hne Hin) in Hm.
  discriminate Hm.
Qed.














(** * More on the phases of a run *)

(** X1.  [browser.close()] is executed at most once in any run, set-up
    failures included, and it is the last thing a run does: no call on the
    page and no print follows it. *)
Theorem close_is_final (w : world) :
  close_count (trace w) <= 1 /\
  (forall r : option exn,
     In (Called browser_close r) (trace w) ->
     exists t, trace w = t ++ [Called browser_close r]).
Proof.
  run_cases_all w; (split; [cbv; repeat constructor|]);
    intros r Hin; cbn [In] in Hin;
    repeat (destruct Hin as [Hin | Hin];
      [ first
          [ discriminate Hin
          | injection Hin as <-;
            match goal with
            | |- exists t, ?l = _ => exists (removelast l); reflexivity
            end ]
      | ]);
    contradiction.
Qed.

(** X2.  Navigation is only ever started with all thirteen rules in place:
    whenever [page.goto] is called, the calls before it have registered
    exactly the fixture table, ["Navigating to app..."] is all that has
    been printed, and no rule is registered afterwards. *)
Theorem navigation_follows_all_mocks (w : world) (r : option exn) :
  In (Called goto_app r) (trace w) ->
  exists t1 t2,
    trace w = t1 ++ Called goto_app r :: t2 /\
    registered_routes t1 = route_table /\
    stdout t1 = ["Navigating to app..."] /\
    registered_routes (trace w) = route_table.
Proof.
  run_cases_all w; intros Hin; cbn [In] in Hin;
    repeat (destruct Hin as [Hin | Hin];
      [ first
          [ discriminate Hin
          | injection Hin as <-;
            match goal with
            | |- exists t1 t2, ?l = _ /\ _ =>
                exists (firstn 17 l), (skipn 18 l); repeat split; reflexivity
            end ]
      | ]);
    contradiction.
Qed.

Lemma navigation_follows_all_mocks_witness :
  registered_routes (trace server_down) = route_table.
Proof.
  assert (Hin : In (Called goto_app
                      (Some (Exception
                         "net::ERR_CONNECTION_REFUSED at http://localhost:5173/")))
                   (trace server_down)).
  { cbv. do 17 right. left. reflexivity. }
  destruct (navigation_follows_all_mocks server_down _ Hin)
    as [t1 [t2 [_ [_ [_ H]]]]].
  exact H.
Defined.

(** X5.  The line ["Screenshot saved to verification_chat.png"] is printed
    exactly in the runs that wrote [verification_chat.png]: the message is
    never printed for a screenshot that failed, whatever the text of the
    errors that are printed. *)
Theorem saved_message_iff_chat_written (w : world) :
  In "Screenshot saved to verification_chat.png" (stdout (trace w)) <->
  In "verification_chat.png" (files_written (trace w)).
Proof.
  run_cases_all w; split; intros H;
    first [ absurd_in H | cbv; auto 6 ].
Qed.

(** X6.  The [except] branch of the interaction phase treats its three
    sources alike: whichever of the wait, the fill and the screenshot to
    [verification_chat.png] raises, the run prints ["Interaction failed: "]
    followed by the error text, then attempts the screenshot to
    [verification_error.png], then (if that returned) closes the browser;
    nothing else is printed. *)
Theorem interaction_failure_path (w : world) (e : exn) :
  setup_ok w -> interaction_raises w e ->
  exists t c,
    trace w =
      t ++ [Called c (Some e);
            Printed ("Interaction failed: " ++ str e)%string;
            Called (shot "verification_error.png")
                   (w (shot "verification_error.png"))] ++
      match w (shot "verification_error.png") with
      | None => [Called browser_close (w browser_close)]
      | Some _ => []
      end /\
    (c = wait_textarea \/ c = fill_textarea \/
     c = shot "verification_chat.png") /\
    stdout (trace w) =
      ["Navigating to app..."; "Waiting for chat input...";
       ("Interaction failed: " ++ str e)%string].
Proof.
  intros Hs Hi.
  destruct Hi as [Hg [Hw | [Hw [Hf | [Hf Hx]]]]];
    run_cases w Hs;
    match goal with
    | |- exists t c, ?l = _ /\ _ =>
        first [ exists (firstn 19 l); eexists; split; [reflexivity|]
              | exists (firstn 20 l); eexists; split; [reflexivity|]
              | exists (firstn 21 l); eexists; split; [reflexivity|] ]
    end;
    (split; [|reflexivity]);
    first [ left; reflexivity | right; left; reflexivity
          | right; right; reflexivity ].
Qed.

Lemma interaction_failure_path_witness :
  stdout (trace textarea_disabled) =
    ["Navigating to app..."; "Waiting for chat input...";
     "Interaction failed: Timeout 30000ms exceeded: element is not enabled"].
Proof.
  destruct (interaction_failure_path textarea_disabled _
              textarea_disabled_setup
              (conj eq_refl (or_intror (conj eq_refl (or_introl eq_refl)))))
    as [t [c [_ [_ H]]]].
  exact H.
Defined.



(** X8.  Set-up is unprotected: when the launch, the creation of the
    context or of the page, or the registration of a rule raises, that
    exception is the outcome of [run]; nothing has been printed, no file
    is written and the browser, launched or not, is never closed. *)
Theorem setup_failure_aborts (w : world) (c : call) (e : exn) :
  is_setup c = true ->
  In (Called c (Some e)) (trace w) ->
  outcome w = Raised e /\
  stdout (trace w) = [] /\
  files_written (trace w) = [] /\
  close_count (trace w) = 0.
Proof.
  intros Hc. run_cases_all w; intros Hin; cbn [In] in Hin;
    repeat (destruct Hin as [Hin | Hin];
      [ first
          [ discriminate Hin
          | injection Hin as <- <-;
            first [ discriminate Hc | repeat split; reflexivity ] ]
      | ]);
    contradiction.
Qed.

Lemma setup_failure_aborts_witness :
  outcome launch_fails =
    Raised (Exception "Executable doesn't exist at chromium") /\
  stdout (trace launch_fails) = [] /\
  files_written (trace launch_fails) = [] /\
  close_count (trace launch_fails) = 0.
Proof.
  refine (setup_failure_aborts launch_fails (chromium_launch true) _
            eq_refl _).
  cbv. left. reflexivity.
Defined.

(** * More on the fixture table *)

(** X9.  A mock never answers with anything but a fixture: whenever a
    request is intercepted, its URL is accepted by the glob of some entry
    of the table and the answer is status 200, JSON content type and that
    entry's document; the request's method, headers and body play no
    part. *)
Theorem dispatch_answers_from_fixtures (req : request) (resp : response) :
  dispatch route_table req = Some resp ->
  exists (p : string) (body : json),
    In (p, body) fixtures /\
    url_matches p (req_url req) = true /\
    resp = mkResponse 200 "application/json" body.
Proof.
  unfold dispatch.
  destruct (find _ route_table) as [[q h]|] eqn:E; [|discriminate].
  intros H. injection H as <-.
  apply find_some in E as [Hq Hm]. cbn [fst] in Hm.
  rewrite route_table_fixtures in Hq. apply in_rev in Hq.
  apply in_map_iff in Hq as [[p body] [Heq Hin]].
  cbn [fst snd] in Heq. injection Heq as <- <-.
  exists p, body. split; [exact Hin|]. split; [exact Hm | reflexivity].
Qed.

Lemma dispatch_answers_from_fixtures_witness :
  exists (p : string) (body : json),
    In (p, body) fixtures /\
    url_matches p "http://localhost:5173/api/character" = true /\
    mkResponse 200 "application/json"
      (JObj [("character", JObj [("name", JStr "Milady")])]) =
    mkResponse 200 "application/json" body.
Proof.
  exact (dispatch_answers_from_fixtures
           (mkRequest "http://localhost:5173/api/character" "DELETE" []
                      (Some "x")) _ eq_refl).
Defined.

Lemma prefix_match_lit (ps : list seg) (ss : list (list ascii))
  (l : list ascii) :
  prefix_match ps ss = true -> In (SLit l) ps -> In l ss.
Proof.
  revert ss; induction ps as [|p ps IH]; intros [|s ss]; simpl;
    try discriminate; try contradiction.
  intros H [-> | Hin]; apply andb_prop in H as [Hp H].
  - left. simpl in Hp. apply chars_eqb_eq in Hp. congruence.
  - right. now apply IH.
Qed.

Lemma matched_url_has_api_segment (u p : string) :
  In p route_patterns -> url_matches p u = true ->
  In (chars "api") (split_slash (chars u)).
Proof.
  intros Hp Hm.
  pose proof route_patterns_segmented as Hseg.
  rewrite forallb_forall in Hseg.
  pose proof (url_matches_tail _ _ (Hseg _ Hp) Hm) as Ht.
  unfold tail_match in Ht. clear Hm Hseg.
  apply in_rev. apply (prefix_match_lit _ _ _ Ht). clear Ht.
  cbv [route_patterns] in Hp.
  change (map fst route_table) with
    (map fst (rev (map (fun pj => (fst pj,
       fun _ : route => route_fulfill None (snd pj))) fixtures))) in Hp.
  cbn [fixtures map rev app fst snd In] in Hp.
  repeat (destruct Hp as [<- | Hp];
          [vm_compute; repeat (first [left; reflexivity | right])|]).
  contradiction.
Qed.

(** X10.  The mocks only touch URLs with an [api] segment: a URL accepted
    by the glob of any registered rule has [api] as one of its
    [/]-separated segments, and a request whose URL has no such segment,
    like the one for the page the script navigates to, is not
    intercepted. *)
Theorem mocks_only_touch_api_urls :
  (forall u p : string,
     In p route_patterns -> url_matches p u = true ->
     In (chars "api") (split_slash (chars u))) /\
  (forall req : request,
     ~ In (chars "api") (split_slash (chars (req_url req))) ->
     dispatch route_table req = None).
Proof.
  split; [exact matched_url_has_api_segment|].
  intros req Hno. unfold dispatch.
  destruct (find _ route_table) as [[q h]|] eqn:E; [exfalso | reflexivity].
  apply find_some in E as [Hq Hm]. cbn [fst] in Hm.
  apply Hno. apply (matched_url_has_api_segment _ q); [|exact Hm].
  unfold route_patterns. change q with (fst (q, h)).
  apply in_map. exact Hq.
Qed.

Lemma mocks_only_touch_api_urls_witness :
  dispatch route_table
    (mkRequest "http://localhost:5173/" "GET" [] None) = None.
Proof.
  refine (proj2 mocks_only_touch_api_urls
            (mkRequest "http://localhost:5173/" "GET" [] None) _).
  intros Hin. cbv in Hin.
  repeat (destruct Hin as [Hin | Hin]; [discriminate Hin|]).
  exact Hin.
Defined.

Lemma split_slash_last (a b : list ascii) :
  noslash b = true ->
  exists pre x, split_slash (a ++ b) = pre ++ [x ++ b].
Proof.
  intros Hb. induction a as [|c a IH]; simpl.
  - exists [], []. now rewrite split_slash_noslash.
  - destruct IH as (pre & x & IH). rewrite IH.
    destruct (Ascii.eqb c slash).
    + exists ([] :: pre), x. reflexivity.
    + destruct pre as [|h pre]; simpl.
      * exists [], (c :: x). reflexivity.
      * exists ((c :: h) :: pre), x. reflexivity.
Qed.

(** X11.  A query string takes a request past the mocks: a URL that ends
    in [?] and a slash-free query is accepted by no registered glob other
    than the wallet one, whose final star takes the query in.  So
    [/api/logs?limit=10] goes to the network although [/api/logs] is
    mocked. *)
Theorem query_string_escapes_literal_globs (p base q : string) :
  In p route_patterns -> p <> "**/api/wallet/*"%string ->
  noslash (chars q) = true ->
  url_matches p (base ++ "?" ++ q) = false.
Proof.
  intros Hp Hne Hq.
  destruct (url_matches p _) eqn:Hm; [exfalso | reflexivity].
  pose proof route_patterns_segmented as Hseg.
  rewrite forallb_forall in Hseg.
  pose proof (url_matches_tail _ _ (Hseg _ Hp) Hm) as Ht.
  unfold tail_match in Ht. clear Hm Hseg.
  rewrite chars_app in Ht.
  change (chars ("?" ++ q)%string) with ("?"%char :: chars q) in Ht.
  destruct (split_slash_last (chars base) ("?"%char :: chars q))
    as (pre & x & Hsp); [simpl; exact Hq|].
  rewrite Hsp, rev_app_distr in Ht. cbn [rev app] in Ht.
  cbv [route_patterns] in Hp.
  change (map fst route_table) with
    (map fst (rev (map (fun pj => (fst pj,
       fun _ : route => route_fulfill None (snd pj))) fixtures))) in Hp.
  cbn [fixtures map rev app fst snd In] in Hp.
  repeat (destruct Hp as [<- | Hp];
    [ first
        [ congruence
        | match type of Ht with
          | prefix_match ?ps _ = true =>
              let v := eval vm_compute in ps in change ps with v in Ht
          end;
          cbn [prefix_match seg_ok] in Ht;
          apply andb_prop in Ht as [Ht _];
          apply chars_eqb_eq in Ht;
          assert (Hin : In "?"%char (x ++ "?"%char :: chars q))
            by (apply in_or_app; right; left; reflexivity);
          rewrite <- Ht in Hin; cbn [In] in Hin;
          repeat (destruct Hin as [Hin | Hin]; [discriminate Hin|]);
          contradiction ]
    | ]).
  contradiction.
Qed.

Lemma query_string_escapes_literal_globs_witness :
  url_matches "**/api/logs" "http://localhost:5173/api/logs?limit=10" = false.
Proof.
  refine (query_string_escapes_literal_globs "**/api/logs"
            "http://localhost:5173/api/logs" "limit=10" _ _ eq_refl).
  - cbv. do 7 right. left. reflexivity.
  - intros E. discriminate E.
Defined.

(** * Runs with raised objects of any class *)

Ltac name_run_by_class ic w r E :=
  unfold nav_raises, interaction_raises, goto_app, wait_textarea,
    fill_textarea, shot in *;
  remember (run_by_class ic w) as r eqn:E;
  unfold run_by_class, run_body_by_class, bind, try_except_Exception,
    invoke, print, return_ in E.

Ltac class_cases_in E ic w :=
  repeat first
    [ match type of E with
      | context [w ?c] =>
          destruct (w c) as [?|] eqn:?; cbn [fst snd app] in E
      end
    | match type of E with
      | context [ic ?e] =>
          destruct (ic e) eqn:?; cbn [fst snd app] in E
      end ].

Ltac run_cases_by_class ic w Hs :=
  let r := fresh "r" in
  let E := fresh "E" in
  name_run_by_class ic w r E; use_setup_in E Hs; use_world_in E;
  class_cases_in E ic w;
  cbn [fst snd app] in E; subst r; cbn [fst snd].

Ltac run_cases_by_class_all ic w :=
  let r := fresh "r" in
  let E := fresh "E" in
  name_run_by_class ic w r E; class_cases_in E ic w;
  cbn [fst snd app] in E; subst r; cbn [fst snd].

(** When every raised object is an instance of [Exception], the run is the
    one of [run]. *)
Lemma run_by_class_all_exceptions (w : world) :
  run_by_class (fun _ => true) w = run w.
Proof. reflexivity. Qed.

(** X3.  An instance of [Exception] raised by navigation, by the wait, by
    the fill or by the screenshot to [verification_chat.png] never leaves
    [run].  When [run] ends with a raised object, the call that raised it
    is the last thing the run did, and either the object is not an
    instance of [Exception] (no handler of the script catches it) or the
    call is a set-up call, a diagnostic screenshot or
    [browser.close()]. *)
Theorem raised_error_origin
  (is_exception : exn -> bool) (w : world) (e : exn) :
  fst (run_by_class is_exception w) = Raised e ->
  exists t c,
    snd (run_by_class is_exception w) = t ++ [Called c (Some e)] /\
    (is_exception e = false \/ is_setup c = true \/
     c = shot "verification_failed.png" \/
     c = shot "verification_error.png" \/ c = browser_close).
Proof.
  run_cases_by_class_all is_exception w; intros H; try discriminate H;
    injection H as <-;
    match goal with
    | |- exists t c, ?l = _ /\ _ =>
        exists (removelast l); eexists; split; [reflexivity|]
    end;
    first [ left; assumption | right; left; reflexivity
          | right; right; left; reflexivity
          | right; right; right; left; reflexivity
          | right; right; right; right; reflexivity ].
Qed.

Lemma raised_error_origin_witness :
  exists t c,
    snd (run_by_class exception_unless_interrupt interrupted_navigation) =
      t ++ [Called c (Some (Exception "KeyboardInterrupt"))] /\
    (exception_unless_interrupt (Exception "KeyboardInterrupt") = false \/
     is_setup c = true \/
     c = shot "verification_failed.png" \/
     c = shot "verification_error.png" \/ c = browser_close).
Proof.
  exact (raised_error_origin exception_unless_interrupt
           interrupted_navigation _ eq_refl).
Defined.

(** X4.  As long as what navigation, the wait, the fill and the screenshot
    to [verification_chat.png] raise is an instance of [Exception], a run
    whose set-up, diagnostic screenshots and [browser.close()] return ends
    by returning, with exactly one image file written and the browser
    closed once. *)
Theorem run_returns_when_cleanup_works
  (is_exception : exn -> bool) (w : world) :
  setup_ok w ->
  w (shot "verification_failed.png") = None ->
  w (shot "verification_error.png") = None ->
  w browser_close = None ->
  (forall c e, w c = Some e -> is_exception e = true) ->
  fst (run_by_class is_exception w) = Returned /\
  List.length (files_written (snd (run_by_class is_exception w))) = 1 /\
  close_count (snd (run_by_class is_exception w)) = 1.
Proof.
  intros Hs Hf He Hc Hall.
  run_cases_by_class is_exception w Hs;
    try (exfalso;
         match goal with
         | H : w ?c = Some ?e, H' : is_exception ?e = false |- _ =>
             rewrite (Hall c e H) in H'; discriminate H'
         end);
    repeat split; reflexivity.
Qed.

Lemma run_returns_when_cleanup_works_witness :
  fst (run_by_class (fun _ => true) textarea_disabled) = Returned /\
  List.length
    (files_written (snd (run_by_class (fun _ => true) textarea_disabled)))
    = 1 /\
  close_count (snd (run_by_class (fun _ => true) textarea_disabled)) = 1.
Proof.
  exact (run_returns_when_cleanup_works (fun _ => true) textarea_disabled
           textarea_disabled_setup eq_refl eq_refl eq_refl
           (fun _ _ _ => eq_refl)).
Defined.

(** X12.  A raised object that is not an instance of [Exception] leaves
    [run] at once, whichever call raised it: it is the outcome of [run],
    the call is the last thing the run did, no diagnostic screenshot is
    attempted and, unless the call is [browser.close()] itself, the browser
    is not closed. *)
Theorem uncaught_class_leaves_at_once
  (is_exception : exn -> bool) (w : world) (c : call) (e : exn) :
  In (Called c (Some e)) (snd (run_by_class is_exception w)) ->
  is_exception e = false ->
  fst (run_by_class is_exception w) = Raised e /\
  (exists t, snd (run_by_class is_exception w) = t ++ [Called c (Some e)]) /\
  (c <> browser_close ->
   close_count (snd (run_by_class is_exception w)) = 0).
Proof.
  run_cases_by_class_all is_exception w; intros Hin Hne; cbn [In] in Hin;
    repeat (destruct Hin as [Hin | Hin];
      [ first
          [ discriminate Hin
          | injection Hin as <- <-;
            first
              [ congruence
              | split; [reflexivity|];
                split;
                [ match goal with
                  | |- exists t, ?l = _ => exists (removelast l); reflexivity
                  end
                | intros Hc; first [reflexivity | congruence] ] ] ]
      | ]);
    contradiction.
Qed.

Lemma uncaught_class_leaves_at_once_witness :
  fst (run_by_class exception_unless_interrupt interrupted_navigation) =
    Raised (Exception "KeyboardInterrupt") /\
  close_count
    (snd (run_by_class exception_unless_interrupt interrupted_navigation))
    = 0.
Proof.
  destruct (uncaught_class_leaves_at_once exception_unless_interrupt
              interrupted_navigation goto_app
              (Exception "KeyboardInterrupt")) as [Ho [_ Hc]].
  - cbv. do 17 right. left. reflexivity.
  - reflexivity.
  - split; [exact Ho | apply Hc; discriminate].
Defined.
